(** * Owner/Pet API (src/main.py, src/models/owner.py): a shallow embedding.

    The two process-wide dictionaries [OWNERS] and [PETS] are Python dicts
    keyed by UUID and iterated in insertion order; they are modelled as
    association lists with the dict operations written out in [Dict].
    UUIDs and timestamps are integers.  [uuid.uuid4] and
    [datetime.utcnow] are oracles: the state carries the sequence of values
    they return and the index of the next call. *)

From Stdlib Require Import ZArith List String Bool Lia.
Import ListNotations.
Open Scope Z_scope.

Definition UUID := Z.
Definition datetime := Z.

(** ** Python dicts with insertion order *)
Module Dict.
Section Ops.
Context {V : Type}.

(** [d.get(k)] *)
Fixpoint get (d : list (Z * V)) (k : Z) : option V :=
  match d with
  | [] => None
  | (k', v) :: t => if Z.eqb k k' then Some v else get t k
  end.

(** [k in d] *)
Definition contains (d : list (Z * V)) (k : Z) : bool :=
  match get d k with Some _ => true | None => false end.

(** [d[k] = v]: an existing key keeps its position, a new key goes last. *)
Fixpoint set (d : list (Z * V)) (k : Z) (v : V) : list (Z * V) :=
  match d with
  | [] => [(k, v)]
  | (k', v') :: t => if Z.eqb k k' then (k, v) :: t else (k', v') :: set t k v
  end.

(** [del d[k]], used by the handlers on present keys only. *)
Definition del (d : list (Z * V)) (k : Z) : list (Z * V) :=
  filter (fun kv => negb (Z.eqb (fst kv) k)) d.

(** [d.values()] *)
Definition values (d : list (Z * V)) : list V := map snd d.

End Ops.
End Dict.

(** ** Data model *)

(** Modelled from the spec: [models/pet.py] ([PetBase], [PetCreate],
    [PetRead], [PetUpdate]) is imported by [main.py] but is not among the
    sources.  The spec describes a Pet as a server-generated immutable [id],
    an [owner_id] foreign key, descriptive scalar fields (name, species) and
    [created_at]/[updated_at] timestamps assigned like an Owner's. *)
Record PetRead := mkPet {
  p_id : UUID;
  owner_id : UUID;
  name : string;
  species : string;
  p_created_at : datetime;
  p_updated_at : datetime
}.

(** Modelled from the spec: the Pet creation payload (no id, no timestamps). *)
Record PetCreate := mkPetCreate {
  pc_owner_id : UUID;
  pc_name : string;
  pc_species : string
}.

(** Modelled from the spec: the Pet partial update; [None] is a field left
    unset, so [model_dump(exclude_unset=True)] omits it. *)
Record PetUpdate := mkPetUpdate {
  pu_owner_id : option UUID;
  pu_name : option string;
  pu_species : option string
}.

(** [OwnerRead]: the fields of [OwnerBase] and the server fields.  The
    embedded [pets] list is typed [List[PetBase]] in the source; its entries
    are modelled with the Pet record. *)
Record OwnerRead := mkOwner {
  o_id : UUID;
  first_name : string;
  last_name : string;
  phone : string;
  email : option string;
  birth_date : option Z;
  pets : list PetRead;
  o_created_at : datetime;
  o_updated_at : datetime
}.

(** [OwnerCreate]: exactly the fields of [OwnerBase]. *)
Record OwnerCreate := mkOwnerCreate {
  c_first_name : string;
  c_last_name : string;
  c_phone : string;
  c_email : option string;
  c_birth_date : option Z;
  c_pets : list PetRead
}.

(** [OwnerUpdate]: every field is [Optional] with default [None].  The outer
    option says whether the client set the field (what [exclude_unset]
    looks at); the inner option is the value, [None] being an explicit JSON
    [null]. *)
Record OwnerUpdate := mkOwnerUpdate {
  u_first_name : option (option string);
  u_last_name : option (option string);
  u_phone : option (option string);
  u_email : option (option string);
  u_birth_date : option (option Z)
}.

(** The plain dict built by [owner.model_dump()]: any key may hold [None]
    once [data.update(...)] has copied the payload into it. *)
Record OwnerData := mkOwnerData {
  d_id : UUID;
  d_first_name : option string;
  d_last_name : option string;
  d_phone : option string;
  d_email : option string;
  d_birth_date : option Z;
  d_pets : list PetRead;
  d_created_at : datetime;
  d_updated_at : datetime
}.

Definition owner_model_dump (o : OwnerRead) : OwnerData :=
  {| d_id := o_id o; d_first_name := Some (first_name o);
     d_last_name := Some (last_name o); d_phone := Some (phone o);
     d_email := email o; d_birth_date := birth_date o; d_pets := pets o;
     d_created_at := o_created_at o; d_updated_at := o_updated_at o |}.

(** [dict.update] with one key: a set key overwrites, an unset key keeps. *)
Definition upd {A} (old : A) (new : option A) : A :=
  match new with Some v => v | None => old end.

(** [data.update(payload.model_dump(exclude_unset=True))] *)
Definition owner_data_update (d : OwnerData) (u : OwnerUpdate) : OwnerData :=
  {| d_id := d_id d;
     d_first_name := upd (d_first_name d) (u_first_name u);
     d_last_name := upd (d_last_name d) (u_last_name u);
     d_phone := upd (d_phone d) (u_phone u);
     d_email := upd (d_email d) (u_email u);
     d_birth_date := upd (d_birth_date d) (u_birth_date u);
     d_pets := d_pets d;
     d_created_at := d_created_at d; d_updated_at := d_updated_at d |}.

(** [data["updated_at"] = now] *)
Definition owner_data_set_updated_at (d : OwnerData) (now : datetime) : OwnerData :=
  {| d_id := d_id d; d_first_name := d_first_name d; d_last_name := d_last_name d;
     d_phone := d_phone d; d_email := d_email d; d_birth_date := d_birth_date d;
     d_pets := d_pets d; d_created_at := d_created_at d; d_updated_at := now |}.

(** [OwnerRead( **data)]: validation rejects [None] for the required [str]
    fields; [email] and [birth_date] are [Optional]. *)
Definition OwnerRead_validate (d : OwnerData) : option OwnerRead :=
  match d_first_name d, d_last_name d, d_phone d with
  | Some f, Some l, Some p =>
      Some {| o_id := d_id d; first_name := f; last_name := l; phone := p;
              email := d_email d; birth_date := d_birth_date d; pets := d_pets d;
              o_created_at := d_created_at d; o_updated_at := d_updated_at d |}
  | _, _, _ => None
  end.

(** [o.pets = ...] *)
Definition set_pets (o : OwnerRead) (ps : list PetRead) : OwnerRead :=
  {| o_id := o_id o; first_name := first_name o; last_name := last_name o;
     phone := phone o; email := email o; birth_date := birth_date o; pets := ps;
     o_created_at := o_created_at o; o_updated_at := o_updated_at o |}.

(** Modelled from the spec: [pet.model_dump()], [data.update(...)],
    [data["updated_at"] = now] and [PetRead( **data)] of [patch_pet]; the id
    and [created_at] cannot be supplied. *)
Definition pet_apply_update (p : PetRead) (u : PetUpdate) (now : datetime) : PetRead :=
  {| p_id := p_id p; owner_id := upd (owner_id p) (pu_owner_id u);
     name := upd (name p) (pu_name u); species := upd (species p) (pu_species u);
     p_created_at := p_created_at p; p_updated_at := now |}.

(** ** Process state: the two dicts and the two oracles *)
Record St := mkSt {
  OWNERS : list (UUID * OwnerRead);
  PETS : list (UUID * PetRead);
  clock : nat -> datetime;   (** successive results of [datetime.utcnow()] *)
  tick : nat;                (** index of the next [utcnow()] call *)
  uuids : nat -> UUID;       (** successive results of [uuid4()] *)
  uuid_ix : nat              (** index of the next [uuid4()] call *)
}.

Definition with_owners (s : St) (os : list (UUID * OwnerRead)) : St :=
  mkSt os (PETS s) (clock s) (tick s) (uuids s) (uuid_ix s).

Definition with_pets (s : St) (ps : list (UUID * PetRead)) : St :=
  mkSt (OWNERS s) ps (clock s) (tick s) (uuids s) (uuid_ix s).

(** [datetime.utcnow()] *)
Definition utcnow (s : St) : datetime * St :=
  (clock s (tick s),
   mkSt (OWNERS s) (PETS s) (clock s) (S (tick s)) (uuids s) (uuid_ix s)).

(** [uuid4()] *)
Definition uuid4 (s : St) : UUID * St :=
  (uuids s (uuid_ix s),
   mkSt (OWNERS s) (PETS s) (clock s) (tick s) (uuids s) (S (uuid_ix s))).

(** The module starts with [OWNERS = {}] and [PETS = {}]. *)
Definition init (clk : nat -> datetime) (uu : nat -> UUID) : St :=
  mkSt [] [] clk 0 uu 0.

(** Outcome of a handler: a return value or a raised exception.
    [ValidationError] is a pydantic error raised inside a handler. *)
Inductive Resp (A : Type) : Type :=
| Ok (a : A)
| HTTPException (status_code : Z) (detail : string)
| ValidationError.
Arguments Ok {A} a.
Arguments HTTPException {A} status_code detail.
Arguments ValidationError {A}.

(** [[p for p in PETS.values() if p.owner_id == key]] *)
Definition live_pets (ps : list (UUID * PetRead)) (key : UUID) : list PetRead :=
  filter (fun p => Z.eqb (owner_id p) key) (Dict.values ps).

(** ** Owner handlers *)

(** [create_owner]: [OwnerRead( **payload.model_dump())] runs the default
    factories of [id], [created_at], [updated_at] in field order. *)
Definition create_owner (payload : OwnerCreate) (s : St) : Resp OwnerRead * St :=
  let (i, s1) := uuid4 s in
  let (c, s2) := utcnow s1 in
  let (u, s3) := utcnow s2 in
  let owner := {| o_id := i; first_name := c_first_name payload;
                  last_name := c_last_name payload; phone := c_phone payload;
                  email := c_email payload; birth_date := c_birth_date payload;
                  pets := c_pets payload; o_created_at := c; o_updated_at := u |} in
  (Ok owner, with_owners s3 (Dict.set (OWNERS s3) i owner)).

(** [list_owners]: the loop assigns [o.pets] on the stored objects. *)
Definition list_owners (s : St) : Resp (list OwnerRead) * St :=
  let os := map (fun kv => (fst kv, set_pets (snd kv) (live_pets (PETS s) (o_id (snd kv)))))
                (OWNERS s) in
  (Ok (Dict.values os), with_owners s os).

(** [get_owner]: [owner.pets = ...] mutates the stored object. *)
Definition get_owner (owner_id0 : UUID) (s : St) : Resp OwnerRead * St :=
  match Dict.get (OWNERS s) owner_id0 with
  | None => (HTTPException 404 "Owner not found", s)
  | Some owner =>
      let owner' := set_pets owner (live_pets (PETS s) (o_id owner)) in
      (Ok owner', with_owners s (Dict.set (OWNERS s) owner_id0 owner'))
  end.

(** [patch_owner] *)
Definition patch_owner (owner_id0 : UUID) (payload : OwnerUpdate) (s : St)
  : Resp OwnerRead * St :=
  match Dict.get (OWNERS s) owner_id0 with
  | None => (HTTPException 404 "Owner not found", s)
  | Some owner =>
      let data := owner_data_update (owner_model_dump owner) payload in
      let (now, s1) := utcnow s in
      let data := owner_data_set_updated_at data now in
      match OwnerRead_validate data with
      | None => (ValidationError, s1)
      | Some updated =>
          let updated := set_pets updated (live_pets (PETS s1) owner_id0) in
          (Ok updated, with_owners s1 (Dict.set (OWNERS s1) owner_id0 updated))
      end
  end.

(** [put_owner_placeholder]: the handler declares no body parameter. *)
Definition put_owner_placeholder (owner_id0 : UUID) (s : St) : Resp unit * St :=
  (HTTPException 501 "Not implemented", s).

(** [delete_owner] *)
Definition delete_owner (owner_id0 : UUID) (s : St) : Resp unit * St :=
  if negb (Dict.contains (OWNERS s) owner_id0)
  then (HTTPException 404 "Owner not found", s)
  else
    let pids := map fst (filter (fun kv => Z.eqb (owner_id (snd kv)) owner_id0) (PETS s)) in
    let ps := fold_left Dict.del pids (PETS s) in
    (Ok tt, with_owners (with_pets s ps) (Dict.del (OWNERS s) owner_id0)).

(** ** Pet handlers *)

(** [create_pet]; the record built by [PetRead( **payload.model_dump())] is
    modelled from the spec (server id and timestamps, as for an Owner). *)
Definition create_pet (payload : PetCreate) (s : St) : Resp PetRead * St :=
  if negb (Dict.contains (OWNERS s) (pc_owner_id payload))
  then (HTTPException 400 "owner_id does not exist", s)
  else
    let (i, s1) := uuid4 s in
    let (c, s2) := utcnow s1 in
    let (u, s3) := utcnow s2 in
    let pet := {| p_id := i; owner_id := pc_owner_id payload; name := pc_name payload;
                  species := pc_species payload; p_created_at := c; p_updated_at := u |} in
    (Ok pet, with_pets s3 (Dict.set (PETS s3) i pet)).

(** [list_pets] *)
Definition list_pets (s : St) : Resp (list PetRead) * St :=
  (Ok (Dict.values (PETS s)), s).

(** [get_pet] *)
Definition get_pet (pet_id : UUID) (s : St) : Resp PetRead * St :=
  match Dict.get (PETS s) pet_id with
  | None => (HTTPException 404 "Pet not found", s)
  | Some pet => (Ok pet, s)
  end.

(** [patch_pet]: no check of a new [owner_id] against [OWNERS]. *)
Definition patch_pet (pet_id : UUID) (payload : PetUpdate) (s : St) : Resp PetRead * St :=
  match Dict.get (PETS s) pet_id with
  | None => (HTTPException 404 "Pet not found", s)
  | Some pet =>
      let (now, s1) := utcnow s in
      let updated := pet_apply_update pet payload now in
      (Ok updated, with_pets s1 (Dict.set (PETS s1) pet_id updated))
  end.

(** [put_pet_placeholder] *)
Definition put_pet_placeholder (pet_id : UUID) (s : St) : Resp unit * St :=
  (HTTPException 501 "Not implemented", s).

(** [delete_pet] *)
Definition delete_pet (pet_id : UUID) (s : St) : Resp unit * St :=
  if negb (Dict.contains (PETS s) pet_id)
  then (HTTPException 404 "Pet not found", s)
  else (Ok tt, with_pets s (Dict.del (PETS s) pet_id)).

(** ** Requests and reachable states *)
Inductive Request : Type :=
| CreateOwner (p : OwnerCreate)
| ListOwners
| GetOwner (k : UUID)
| PatchOwner (k : UUID) (u : OwnerUpdate)
| PutOwner (k : UUID)
| DeleteOwner (k : UUID)
| CreatePet (p : PetCreate)
| ListPets
| GetPet (k : UUID)
| PatchPet (k : UUID) (u : PetUpdate)
| PutPet (k : UUID)
| DeletePet (k : UUID).

(** The state after serving one request (its response dropped). *)
Definition serve (r : Request) (s : St) : St :=
  match r with
  | CreateOwner p => snd (create_owner p s)
  | ListOwners => snd (list_owners s)
  | GetOwner k => snd (get_owner k s)
  | PatchOwner k u => snd (patch_owner k u s)
  | PutOwner k => snd (put_owner_placeholder k s)
  | DeleteOwner k => snd (delete_owner k s)
  | CreatePet p => snd (create_pet p s)
  | ListPets => snd (list_pets s)
  | GetPet k => snd (get_pet k s)
  | PatchPet k u => snd (patch_pet k u s)
  | PutPet k => snd (put_pet_placeholder k s)
  | DeletePet k => snd (delete_pet k s)
  end.

Inductive reachable : St -> Prop :=
| reach_init : forall clk uu, reachable (init clk uu)
| reach_serve : forall r s, reachable s -> reachable (serve r s).

(** [datetime.utcnow()] never goes backwards. *)
Definition monotone (f : nat -> datetime) : Prop :=
  forall i j, (i <= j)%nat -> f i <= f j.


(** ** Concrete inputs *)

(** A clock ticking by one per call and UUIDs counted from 100. *)
Definition ex_clock (n : nat) : datetime := Z.of_nat n.
Definition ex_uuids (n : nat) : UUID := 100 + Z.of_nat n.

Definition ada : OwnerCreate :=
  mkOwnerCreate "Ada" "Lovelace" "+1-212-555-0199" None None [].

Definition boba : PetCreate := mkPetCreate 100 "Boba" "Cat".

(** [POST /owners] (Ada gets id 100), then [POST /pets] (Boba gets id 101). *)
Definition ex_state : St :=
  serve (CreatePet boba) (serve (CreateOwner ada) (init ex_clock ex_uuids)).


Definition new_phone : OwnerUpdate :=
  mkOwnerUpdate None None (Some (Some "+44 20 7946 0958"%string)) None None.

(** A [uuid4()] that returns the same value on every call. *)
Definition ex_clash_state : St :=
  serve (CreateOwner ada) (init ex_clock (fun _ => 7)).

(** * Properties *)

(** ** Dict lemmas *)
Module DictFacts.
Section Facts.
Context {V : Type}.
Implicit Types (d : list (Z * V)) (k : Z) (v : V).

Lemma get_In d k v : Dict.get d k = Some v -> In (k, v) d.
Proof.
  induction d as [|[k' v'] t IH]; simpl; [discriminate|].
  destruct (Z.eqb_spec k k') as [->|_].
  - intros [= ->]. now left.
  - intros H. right. now apply IH.
Qed.

Lemma In_set d k v x : In x (Dict.set d k v) -> In x d \/ x = (k, v).
Proof.
  induction d as [|[k' v'] t IH]; simpl.
  - intros [<-|[]]. now right.
  - destruct (Z.eqb k k'); simpl.
    + intros [<-|H]; [now right|]. left; now right.
    + intros [<-|H]; [left; now left|]. destruct (IH H); [left; now right|now right].
Qed.

Lemma get_set_same d k v : Dict.get (Dict.set d k v) k = Some v.
Proof.
  induction d as [|[k' v'] t IH]; simpl.
  - now rewrite Z.eqb_refl.
  - destruct (Z.eqb k k') eqn:E; simpl; rewrite ?Z.eqb_refl, ?E; auto.
Qed.

Lemma In_del d k x : In x (Dict.del d k) -> In x d.
Proof. unfold Dict.del. intros H. now apply filter_In in H. Qed.

Lemma get_del d k' k :
  Dict.get (Dict.del d k') k = if Z.eqb k k' then None else Dict.get d k.
Proof.
  induction d as [|[k0 v0] t IH]; simpl.
  - now destruct (Z.eqb k k').
  - destruct (Z.eqb_spec k0 k') as [->|Hne]; simpl.
    + rewrite IH. destruct (Z.eqb_spec k k'); auto.
    + fold (Dict.del t k'). rewrite IH.
      destruct (Z.eqb_spec k k0) as [->|]; auto.
      destruct (Z.eqb_spec k0 k'); congruence.
Qed.

Lemma get_fold_del pids d k :
  Dict.get (fold_left Dict.del pids d) k =
  if existsb (Z.eqb k) pids then None else Dict.get d k.
Proof.
  revert d. induction pids as [|p t IH]; intros d; simpl; auto.
  rewrite IH, get_del.
  destruct (Z.eqb k p), (existsb (Z.eqb k) t); auto.
Qed.

Lemma In_fold_del pids d x : In x (fold_left Dict.del pids d) -> In x d.
Proof.
  revert d. induction pids as [|p t IH]; intros d; simpl; auto.
  intros H. apply IH in H. now apply In_del in H.
Qed.

Lemma nodup_In_eq d k v v' :
  NoDup (map fst d) -> In (k, v) d -> In (k, v') d -> v = v'.
Proof.
  induction d as [|[k0 v0] t IH]; simpl; [contradiction|].
  intros Hnd. inversion Hnd as [|? ? Hnotin Hnd']; subst.
  intros [Heq|H1] [Heq'|H2]; try congruence.
  - exfalso. inversion Heq; subst. apply Hnotin. now apply (in_map fst) in H2.
  - exfalso. inversion Heq'; subst. apply Hnotin. now apply (in_map fst) in H1.
  - now apply IH.
Qed.

Lemma contains_get d k : Dict.contains d k = true -> exists v, Dict.get d k = Some v.
Proof. unfold Dict.contains. destruct (Dict.get d k); eauto. discriminate. Qed.

Lemma get_contains d k v : Dict.get d k = Some v -> Dict.contains d k = true.
Proof. unfold Dict.contains. now intros ->. Qed.

Lemma keys_set_present d k v :
  Dict.get d k <> None -> map fst (Dict.set d k v) = map fst d.
Proof.
  induction d as [|[k' v'] t IH]; simpl; [congruence|].
  destruct (Z.eqb_spec k k') as [->|_]; simpl; [reflexivity|].
  intros H. now rewrite IH.
Qed.

Lemma set_absent d k v : Dict.get d k = None -> Dict.set d k v = d ++ [(k, v)].
Proof.
  induction d as [|[k' v'] t IH]; simpl; [reflexivity|].
  destruct (Z.eqb k k'); [discriminate|]. intros H. now rewrite IH.
Qed.

Lemma get_None_notin d k : Dict.get d k = None -> ~ In k (map fst d).
Proof.
  induction d as [|[k' v'] t IH]; simpl; [auto|].
  destruct (Z.eqb_spec k k') as [->|Hne]; [discriminate|].
  intros H [Heq|Hin]; [congruence|]. exact (IH H Hin).
Qed.

Lemma get_set_other d k k' v : k' <> k -> Dict.get (Dict.set d k v) k' = Dict.get d k'.
Proof.
  intros Hne. induction d as [|[k0 v0] t IH]; simpl.
  - destruct (Z.eqb_spec k' k); congruence.
  - destruct (Z.eqb_spec k k0) as [->|_]; simpl.
    + destruct (Z.eqb_spec k' k0); congruence.
    + now rewrite IH.
Qed.

Lemma nodup_set d k v : NoDup (map fst d) -> NoDup (map fst (Dict.set d k v)).
Proof.
  intros Hnd. destruct (Dict.get d k) eqn:Hg.
  - rewrite keys_set_present by congruence. exact Hnd.
  - rewrite set_absent by exact Hg. rewrite map_app. simpl.
    apply NoDup_app; [exact Hnd|constructor; [intros []|constructor]|].
    intros a Ha [<-|[]]. exact (get_None_notin d k Hg Ha).
Qed.

Lemma nodup_filter_keys (f : Z * V -> bool) d :
  NoDup (map fst d) -> NoDup (map fst (filter f d)).
Proof.
  induction d as [|[k v] t IH]; simpl; [auto|].
  intros Hnd. inversion Hnd as [|? ? Hnotin Hnd']; subst.
  destruct (f (k, v)); simpl; [|exact (IH Hnd')].
  constructor; [|exact (IH Hnd')].
  intros Hin. apply Hnotin. apply in_map_iff in Hin as [[k' v'] [Hk Hf]].
  simpl in Hk; subst k'. apply filter_In in Hf as [Hf _].
  exact (in_map fst _ _ Hf).
Qed.

Lemma nodup_fold_del pids d :
  NoDup (map fst d) -> NoDup (map fst (fold_left Dict.del pids d)).
Proof.
  revert d. induction pids as [|p t IH]; intros d Hnd; simpl; [exact Hnd|].
  apply IH. exact (nodup_filter_keys _ d Hnd).
Qed.

Lemma In_get_nodup d k v : NoDup (map fst d) -> In (k, v) d -> Dict.get d k = Some v.
Proof.
  induction d as [|[k' v'] t IH]; simpl; [contradiction|].
  intros Hnd. inversion Hnd as [|? ? Hnotin Hnd']; subst.
  intros [Heq|Hin].
  - inversion Heq; subst. now rewrite Z.eqb_refl.
  - destruct (Z.eqb_spec k k') as [->|_]; [|exact (IH Hnd' Hin)].
    exfalso. apply Hnotin. exact (in_map fst _ _ Hin).
Qed.

Lemma In_set_same d k v : In (k, v) (Dict.set d k v).
Proof. apply get_In, get_set_same. Qed.

End Facts.
End DictFacts.
Import DictFacts.

(** ** Owner deletion *)

(** C1: on a Pet dict with distinct keys (as every Python dict has) and an
    Owner present in [OWNERS], [DELETE /owners/{id}] succeeds, removes the
    Owner and, in the same call, every Pet whose [owner_id] is that id, so
    that [GET /pets/{pid}] on such a Pet raises 404; every other Pet stays
    stored unchanged. *)
Theorem delete_owner_cascade (s : St) (owner_id0 : UUID)
  (Hnd : NoDup (map fst (PETS s)))
  (Hin : Dict.contains (OWNERS s) owner_id0 = true) :
  fst (delete_owner owner_id0 s) = Ok tt /\
  Dict.get (OWNERS (snd (delete_owner owner_id0 s))) owner_id0 = None /\
  (forall pid p, Dict.get (PETS s) pid = Some p ->
     (owner_id p = owner_id0 ->
        fst (get_pet pid (snd (delete_owner owner_id0 s))) =
        HTTPException 404 "Pet not found") /\
     (owner_id p <> owner_id0 ->
        Dict.get (PETS (snd (delete_owner owner_id0 s))) pid = Some p)).
Proof.
  unfold delete_owner. rewrite Hin. simpl.
  split; [reflexivity|]. split.
  { rewrite get_del, Z.eqb_refl. reflexivity. }
  intros pid p Hp. apply get_In in Hp as HIn.
  split; intros Hown.
  - unfold get_pet. simpl. rewrite get_fold_del.
    replace (existsb _ _) with true; [reflexivity|].
    symmetry. apply existsb_exists. exists pid. split; [|apply Z.eqb_refl].
    apply (in_map fst (filter _ _) (pid, p)). apply filter_In. split; auto.
    simpl. now apply Z.eqb_eq.
  - simpl. rewrite get_fold_del.
    destruct (existsb _ _) eqn:E; [|exact Hp].
    exfalso. apply existsb_exists in E as [x [Hx Heq]].
    apply Z.eqb_eq in Heq. subst x.
    apply in_map_iff in Hx as [[k p'] [Hk Hf]]. simpl in Hk. subst k.
    apply filter_In in Hf as [Hf Hm]. simpl in Hm. apply Z.eqb_eq in Hm.
    assert (p = p') by exact (nodup_In_eq _ _ _ _ Hnd HIn Hf).
    subst p'. contradiction.
Qed.

Lemma delete_owner_cascade_witness :
  NoDup (map fst (PETS ex_state)) /\ Dict.contains (OWNERS ex_state) 100 = true /\
  fst (delete_owner 100 ex_state) = Ok tt /\
  Dict.get (OWNERS (snd (delete_owner 100 ex_state))) 100 = None /\
  (forall pid p, Dict.get (PETS ex_state) pid = Some p ->
     (owner_id p = 100 ->
        fst (get_pet pid (snd (delete_owner 100 ex_state))) =
        HTTPException 404 "Pet not found") /\
     (owner_id p <> 100 ->
        Dict.get (PETS (snd (delete_owner 100 ex_state))) pid = Some p)).
Proof.
  assert (H1 : NoDup (map fst (PETS ex_state))).
  { vm_compute. constructor; [intros []|constructor]. }
  assert (H2 : Dict.contains (OWNERS ex_state) 100 = true) by reflexivity.
  exact (conj H1 (conj H2 (delete_owner_cascade ex_state 100 H1 H2))).
Defined.

(** ** Pet creation *)

(** C2: when the payload's [owner_id] is not a key of [OWNERS],
    [POST /pets] raises 400 "owner_id does not exist" and leaves the whole
    state (both dicts) as it was; when it is a key, the call returns a Pet
    with that [owner_id], stored under its id, with [OWNERS] untouched. *)
Theorem create_pet_owner_check (s : St) (payload : PetCreate) :
  (Dict.contains (OWNERS s) (pc_owner_id payload) = false ->
     create_pet payload s = (HTTPException 400 "owner_id does not exist", s)) /\
  (Dict.contains (OWNERS s) (pc_owner_id payload) = true ->
     exists pet, fst (create_pet payload s) = Ok pet /\
       owner_id pet = pc_owner_id payload /\
       Dict.get (PETS (snd (create_pet payload s))) (p_id pet) = Some pet /\
       OWNERS (snd (create_pet payload s)) = OWNERS s).
Proof.
  unfold create_pet. split; intros H; rewrite H; simpl; [reflexivity|].
  eexists. split; [reflexivity|]. simpl. split; [reflexivity|].
  split; [apply get_set_same|reflexivity].
Qed.

Lemma create_pet_owner_check_witness :
  Dict.contains (OWNERS (init ex_clock ex_uuids)) 100 = false /\
  create_pet boba (init ex_clock ex_uuids) =
    (HTTPException 400 "owner_id does not exist", init ex_clock ex_uuids).
Proof.
  assert (H : Dict.contains (OWNERS (init ex_clock ex_uuids)) 100 = false)
    by reflexivity.
  exact (conj H (proj1 (create_pet_owner_check (init ex_clock ex_uuids) boba) H)).
Defined.

(** ** Reads of Owners *)

(** C5: every Owner returned by [GET /owners] and by [GET /owners/{id}]
    carries as [pets] exactly the Pets of the Pet dict at call time, in
    its order, whose [owner_id] is the Owner's id. *)
Theorem owner_reads_live_pets (s : St) (k : UUID) :
  (exists l, fst (list_owners s) = Ok l /\
     Forall (fun o => pets o = live_pets (PETS s) (o_id o)) l) /\
  match fst (get_owner k s) with
  | Ok o => pets o = live_pets (PETS s) (o_id o)
  | _ => True
  end.
Proof.
  split.
  - eexists. split; [reflexivity|].
    apply Forall_forall. intros o Ho. unfold Dict.values in Ho.
    rewrite map_map in Ho. apply in_map_iff in Ho as [kv [<- _]].
    reflexivity.
  - unfold get_owner. destruct (Dict.get (OWNERS s) k); simpl; auto.
Qed.

(** ** Pet update *)

(** C7: [PATCH /pets/{id}] on a stored Pet with a payload setting
    [owner_id] to a key absent from [OWNERS] succeeds and stores the Pet
    with that dangling [owner_id]. *)
Theorem patch_pet_dangling_owner (s : St) (pet_id : UUID) (pet : PetRead)
  (payload : PetUpdate) (new_owner : UUID) :
  Dict.get (PETS s) pet_id = Some pet ->
  pu_owner_id payload = Some new_owner ->
  Dict.contains (OWNERS s) new_owner = false ->
  exists updated, fst (patch_pet pet_id payload s) = Ok updated /\
    owner_id updated = new_owner /\
    Dict.get (PETS (snd (patch_pet pet_id payload s))) pet_id = Some updated.
Proof.
  intros Hp Hu _. unfold patch_pet. rewrite Hp. simpl.
  eexists. split; [reflexivity|]. split.
  - simpl. rewrite Hu. reflexivity.
  - apply get_set_same.
Qed.

Lemma patch_pet_dangling_owner_witness :
  Dict.get (PETS ex_state) 101 = Some (mkPet 101 100 "Boba" "Cat" 2 3) /\
  Dict.contains (OWNERS ex_state) 999 = false /\
  exists updated,
    fst (patch_pet 101 (mkPetUpdate (Some 999) None None) ex_state) = Ok updated /\
    owner_id updated = 999 /\
    Dict.get (PETS (snd (patch_pet 101 (mkPetUpdate (Some 999) None None) ex_state))) 101
      = Some updated.
Proof.
  assert (H1 : Dict.get (PETS ex_state) 101 = Some (mkPet 101 100 "Boba" "Cat" 2 3))
    by reflexivity.
  assert (H2 : Dict.contains (OWNERS ex_state) 999 = false) by reflexivity.
  split; [exact H1|]. split; [exact H2|].
  exact (patch_pet_dangling_owner ex_state 101 _ (mkPetUpdate (Some 999) None None) 999
           H1 eq_refl H2).
Defined.

(** ** PUT placeholders *)

(** C8: [PUT /owners/{id}] and [PUT /pets/{id}] raise 501 for every id,
    present or not, and leave the state unchanged; neither handler reads a
    request body. *)
Theorem put_always_501 (s : St) (k : UUID) :
  put_owner_placeholder k s = (HTTPException 501 "Not implemented", s) /\
  put_pet_placeholder k s = (HTTPException 501 "Not implemented", s).
Proof. split; reflexivity. Qed.

(** ** Owner creation *)

(** C10: [POST /owners] stores and returns an Owner whose [pets] is the
    client-supplied list, whatever the Pet dict holds: the result does not
    depend on [PETS] at all. *)
Theorem create_owner_keeps_client_pets (s : St) (payload : OwnerCreate) :
  (exists o, fst (create_owner payload s) = Ok o /\ pets o = c_pets payload /\
     Dict.get (OWNERS (snd (create_owner payload s))) (o_id o) = Some o) /\
  (forall ps, fst (create_owner payload (with_pets s ps)) = fst (create_owner payload s)).
Proof.
  split.
  - eexists. split; [reflexivity|]. split; [reflexivity|].
    apply get_set_same.
  - intros ps. reflexivity.
Qed.

(** ** The state invariant of reachable states *)
Module Invariant.

(** A stored Owner sits under its own id, that id came from an earlier
    [uuid4()] call, and its timestamps are earlier clock readings,
    [created_at] read no later than [updated_at]. *)
Definition owner_ok (s : St) (k : UUID) (o : OwnerRead) : Prop :=
  o_id o = k /\
  (exists i, (i < uuid_ix s)%nat /\ uuids s i = k) /\
  (exists i j, (i <= j < tick s)%nat /\
     o_created_at o = clock s i /\ o_updated_at o = clock s j).

Definition pet_ok (s : St) (k : UUID) (p : PetRead) : Prop :=
  p_id p = k /\
  (exists i, (i < uuid_ix s)%nat /\ uuids s i = k) /\
  (exists i j, (i <= j < tick s)%nat /\
     p_created_at p = clock s i /\ p_updated_at p = clock s j).

Definition inv (s : St) : Prop :=
  (forall k o, In (k, o) (OWNERS s) -> owner_ok s k o) /\
  (forall k p, In (k, p) (PETS s) -> pet_ok s k p).

(** [s'] comes later than [s]: same oracles, no fewer calls made. *)
Definition extends (s s' : St) : Prop :=
  clock s' = clock s /\ uuids s' = uuids s /\
  (tick s <= tick s')%nat /\ (uuid_ix s <= uuid_ix s')%nat.

Lemma owner_ok_extends s s' k o : extends s s' -> owner_ok s k o -> owner_ok s' k o.
Proof.
  intros (Hc & Hu & Ht & Hx) (Hid & (i & Hi & Hui) & (a & b & Hab & Ha & Hb)).
  unfold owner_ok. rewrite Hc, Hu. split; [exact Hid|]. split.
  - exists i. split; [lia|exact Hui].
  - exists a, b. split; [lia|auto].
Qed.

Lemma pet_ok_extends s s' k p : extends s s' -> pet_ok s k p -> pet_ok s' k p.
Proof.
  intros (Hc & Hu & Ht & Hx) (Hid & (i & Hi & Hui) & (a & b & Hab & Ha & Hb)).
  unfold pet_ok. rewrite Hc, Hu. split; [exact Hid|]. split.
  - exists i. split; [lia|exact Hui].
  - exists a, b. split; [lia|auto].
Qed.

Lemma owner_ok_set_pets s k o ps : owner_ok s k o -> owner_ok s k (set_pets o ps).
Proof. exact (fun H => H). Qed.

Lemma inv_intro s s' :
  inv s -> extends s s' ->
  (forall k o, In (k, o) (OWNERS s') -> In (k, o) (OWNERS s) \/ owner_ok s' k o) ->
  (forall k p, In (k, p) (PETS s') -> In (k, p) (PETS s) \/ pet_ok s' k p) ->
  inv s'.
Proof.
  intros [Ho Hp] He HO HP. split.
  - intros k o H. destruct (HO k o H) as [H'|H']; auto.
    exact (owner_ok_extends s s' k o He (Ho k o H')).
  - intros k p H. destruct (HP k p H) as [H'|H']; auto.
    exact (pet_ok_extends s s' k p He (Hp k p H')).
Qed.

Lemma extends_refl s : extends s s.
Proof. unfold extends. repeat split; lia. Qed.

Lemma OwnerRead_validate_spec d o :
  OwnerRead_validate d = Some o ->
  d_first_name d = Some (first_name o) /\ d_last_name d = Some (last_name o) /\
  d_phone d = Some (phone o) /\
  o = {| o_id := d_id d; first_name := first_name o; last_name := last_name o;
         phone := phone o; email := d_email d; birth_date := d_birth_date d;
         pets := d_pets d; o_created_at := d_created_at d;
         o_updated_at := d_updated_at d |}.
Proof.
  unfold OwnerRead_validate.
  destruct (d_first_name d), (d_last_name d), (d_phone d); try discriminate.
  intros [= <-]. simpl. auto.
Qed.

Ltac keep_old := intros ? ? ?; left; assumption.
Ltac ext := unfold extends; simpl; repeat split; lia.

Lemma serve_inv r s : inv s -> inv (serve r s) /\ extends s (serve r s).
Proof.
  intros Hinv. pose proof Hinv as [HO HP].
  destruct r as [p| |k|k u|k|k|p| |k|k u|k|k]; simpl.
  - (* CreateOwner *)
    assert (He : extends s (snd (create_owner p s))) by ext.
    split; [|exact He]. apply (inv_intro s _ Hinv He); [|keep_old].
    intros k o H. simpl in H. apply In_set in H as [H|H]; [now left|].
    right. inversion H; subst. unfold owner_ok; simpl. split; [reflexivity|].
    split; [exists (uuid_ix s); split; [lia|reflexivity]|].
    exists (tick s), (S (tick s)). split; [lia|auto].
  - (* ListOwners *)
    assert (He : extends s (snd (list_owners s))) by ext.
    split; [|exact He]. apply (inv_intro s _ Hinv He); [|keep_old].
    intros k o H. simpl in H. apply in_map_iff in H as [[k0 o0] [Heq Hin]].
    simpl in Heq. inversion Heq; subst. right.
    apply owner_ok_set_pets. exact (HO k o0 Hin).
  - (* GetOwner *)
    unfold get_owner. destruct (Dict.get (OWNERS s) k) as [o0|] eqn:Hg;
      [|split; [exact Hinv|apply extends_refl]].
    assert (He : extends s (with_owners s (Dict.set (OWNERS s) k
               (set_pets o0 (live_pets (PETS s) (o_id o0)))))) by ext.
    simpl. split; [|exact He]. apply (inv_intro s _ Hinv He); [|keep_old].
    intros k' o H. simpl in H. apply In_set in H as [H|H]; [now left|].
    inversion H; subst. right. apply owner_ok_set_pets.
    exact (HO _ _ (get_In _ _ _ Hg)).
  - (* PatchOwner *)
    unfold patch_owner. destruct (Dict.get (OWNERS s) k) as [o0|] eqn:Hg;
      [|split; [exact Hinv|apply extends_refl]].
    simpl.
    destruct (OwnerRead_validate _) as [o1|] eqn:Hv.
    + assert (He : extends s (with_owners
          (mkSt (OWNERS s) (PETS s) (clock s) (S (tick s)) (uuids s) (uuid_ix s))
          (Dict.set (OWNERS s) k (set_pets o1 (live_pets (PETS s) k))))) by ext.
      simpl. split; [|exact He]. apply (inv_intro s _ Hinv He); [|keep_old].
      intros k' o H. simpl in H. apply In_set in H as [H|H]; [now left|].
      inversion H; subst. right. apply owner_ok_set_pets.
      apply OwnerRead_validate_spec in Hv as (_ & _ & _ & ->).
      destruct (HO _ _ (get_In _ _ _ Hg)) as (Hid & Hu & (a & b & Hab & Ha & Hb)).
      unfold owner_ok; simpl. split; [exact Hid|]. split; [exact Hu|].
      exists a, (tick s). split; [lia|]. split; [exact Ha|reflexivity].
    + assert (He : extends s
          (mkSt (OWNERS s) (PETS s) (clock s) (S (tick s)) (uuids s) (uuid_ix s))) by ext.
      split; [|exact He]. apply (inv_intro s _ Hinv He); keep_old.
  - (* PutOwner *) split; [exact Hinv|apply extends_refl].
  - (* DeleteOwner *)
    unfold delete_owner. destruct (negb _); [split; [exact Hinv|apply extends_refl]|].
    assert (He : extends s (with_owners (with_pets s (fold_left Dict.del
        (map fst (filter (fun kv => Z.eqb (owner_id (snd kv)) k) (PETS s))) (PETS s)))
        (Dict.del (OWNERS s) k))) by ext.
    simpl. split; [|exact He]. apply (inv_intro s _ Hinv He).
    + intros ? ? H. left. exact (In_del _ _ _ H).
    + intros ? ? H. left. exact (In_fold_del _ _ _ H).
  - (* CreatePet *)
    unfold create_pet. destruct (negb _); [split; [exact Hinv|apply extends_refl]|].
    simpl.
    match goal with |- inv ?s' /\ _ => assert (He : extends s s') end;
      [ext|].
    split; [|exact He]. apply (inv_intro s _ Hinv He); [keep_old|].
    intros k0 p0 H. simpl in H. apply In_set in H as [H|H]; [now left|].
    right. inversion H; subst. unfold pet_ok; simpl. split; [reflexivity|].
    split; [exists (uuid_ix s); split; [lia|reflexivity]|].
    exists (tick s), (S (tick s)). split; [lia|auto].
  - (* ListPets *) split; [exact Hinv|apply extends_refl].
  - (* GetPet *)
    unfold get_pet. destruct (Dict.get (PETS s) k); split; (exact Hinv || apply extends_refl).
  - (* PatchPet *)
    unfold patch_pet. destruct (Dict.get (PETS s) k) as [p0|] eqn:Hg;
      [|split; [exact Hinv|apply extends_refl]].
    simpl.
    match goal with |- inv ?s' /\ _ => assert (He : extends s s') end;
      [ext|].
    split; [|exact He]. apply (inv_intro s _ Hinv He); [keep_old|].
    intros k' p H. simpl in H. apply In_set in H as [H|H]; [now left|].
    inversion H; subst. right.
    destruct (HP _ _ (get_In _ _ _ Hg)) as (Hid & Hu & (a & b & Hab & Ha & Hb)).
    unfold pet_ok; simpl. split; [exact Hid|]. split; [exact Hu|].
    exists a, (tick s). split; [lia|]. split; [exact Ha|reflexivity].
  - (* PutPet *) split; [exact Hinv|apply extends_refl].
  - (* DeletePet *)
    unfold delete_pet. destruct (negb _); [split; [exact Hinv|apply extends_refl]|].
    simpl.
    match goal with |- inv ?s' /\ _ => assert (He : extends s s') by ext end.
    split; [|exact He]. apply (inv_intro s _ Hinv He); [keep_old|].
    intros ? ? H. left. exact (In_del _ _ _ H).
Qed.

Lemma reachable_inv s : reachable s -> inv s.
Proof.
  induction 1 as [clk uu|r s _ IH].
  - split; intros ? ? [].
  - exact (proj1 (serve_inv r s IH)).
Qed.

End Invariant.
Import Invariant.


Lemma ex_state_reachable : reachable ex_state.
Proof. unfold ex_state. apply reach_serve, reach_serve, reach_init. Qed.

(** ** Timestamps *)

(** C6: in every reachable state, with a clock that never goes backwards,
    every stored Owner and Pet has [updated_at >= created_at]. *)
Theorem updated_after_created (s : St) :
  reachable s -> monotone (clock s) ->
  (forall k o, In (k, o) (OWNERS s) -> o_created_at o <= o_updated_at o) /\
  (forall k p, In (k, p) (PETS s) -> p_created_at p <= p_updated_at p).
Proof.
  intros Hr Hm. destruct (reachable_inv s Hr) as [HO HP]. split.
  - intros k o H. destruct (HO k o H) as (_ & _ & (i & j & Hij & -> & ->)).
    apply Hm. lia.
  - intros k p H. destruct (HP k p H) as (_ & _ & (i & j & Hij & -> & ->)).
    apply Hm. lia.
Qed.

Lemma updated_after_created_witness :
  reachable ex_state /\ monotone (clock ex_state) /\
  (forall k o, In (k, o) (OWNERS ex_state) -> o_created_at o <= o_updated_at o) /\
  (forall k p, In (k, p) (PETS ex_state) -> p_created_at p <= p_updated_at p).
Proof.
  assert (H1 : reachable ex_state) by exact ex_state_reachable.
  assert (H2 : monotone (clock ex_state)) by (intros i j H; simpl; unfold ex_clock; lia).
  exact (conj H1 (conj H2 (updated_after_created ex_state H1 H2))).
Defined.

(** ** Keys and ids *)

(** C9: in every reachable state each Owner is stored under its own id and
    each Pet under its own id. *)
Theorem keys_match_ids (s : St) :
  reachable s ->
  (forall k o, In (k, o) (OWNERS s) -> o_id o = k) /\
  (forall k p, In (k, p) (PETS s) -> p_id p = k).
Proof.
  intros Hr. destruct (reachable_inv s Hr) as [HO HP]. split.
  - intros k o H. exact (proj1 (HO k o H)).
  - intros k p H. exact (proj1 (HP k p H)).
Qed.

Lemma keys_match_ids_witness :
  reachable ex_state /\
  (forall k o, In (k, o) (OWNERS ex_state) -> o_id o = k) /\
  (forall k p, In (k, p) (PETS ex_state) -> p_id p = k).
Proof.
  assert (H1 : reachable ex_state) by exact ex_state_reachable.
  exact (conj H1 (keys_match_ids ex_state H1)).
Defined.

(** ** Owner creation: ids and timestamps *)




(** ** Partial updates *)




(** * Further properties of the handlers *)

(** ** Absent ids *)

(** On an id absent from [OWNERS], [get_owner], [patch_owner] and
    [delete_owner] raise 404 "Owner not found" and change nothing. *)
Theorem absent_owner_404 (s : St) (k : UUID) (u : OwnerUpdate) :
  Dict.get (OWNERS s) k = None ->
  get_owner k s = (HTTPException 404 "Owner not found", s) /\
  patch_owner k u s = (HTTPException 404 "Owner not found", s) /\
  delete_owner k s = (HTTPException 404 "Owner not found", s).
Proof.
  intros H. unfold get_owner, patch_owner, delete_owner, Dict.contains.
  rewrite H. auto.
Qed.

Lemma absent_owner_404_witness :
  Dict.get (OWNERS ex_state) 5 = None /\
  get_owner 5 ex_state = (HTTPException 404 "Owner not found", ex_state) /\
  patch_owner 5 new_phone ex_state = (HTTPException 404 "Owner not found", ex_state) /\
  delete_owner 5 ex_state = (HTTPException 404 "Owner not found", ex_state).
Proof.
  assert (H : Dict.get (OWNERS ex_state) 5 = None) by reflexivity.
  exact (conj H (absent_owner_404 ex_state 5 new_phone H)).
Defined.

(** On an id absent from [PETS], [get_pet], [patch_pet] and [delete_pet]
    raise 404 "Pet not found" and change nothing. *)
Theorem absent_pet_404 (s : St) (k : UUID) (u : PetUpdate) :
  Dict.get (PETS s) k = None ->
  get_pet k s = (HTTPException 404 "Pet not found", s) /\
  patch_pet k u s = (HTTPException 404 "Pet not found", s) /\
  delete_pet k s = (HTTPException 404 "Pet not found", s).
Proof.
  intros H. unfold get_pet, patch_pet, delete_pet, Dict.contains.
  rewrite H. auto.
Qed.

Lemma absent_pet_404_witness :
  Dict.get (PETS ex_state) 100 = None /\
  get_pet 100 ex_state = (HTTPException 404 "Pet not found", ex_state) /\
  patch_pet 100 (mkPetUpdate None (Some "Tom"%string) None) ex_state =
    (HTTPException 404 "Pet not found", ex_state) /\
  delete_pet 100 ex_state = (HTTPException 404 "Pet not found", ex_state).
Proof.
  assert (H : Dict.get (PETS ex_state) 100 = None) by reflexivity.
  exact (conj H (absent_pet_404 ex_state 100 _ H)).
Defined.

(** ** Which dict each handler writes *)

(** No Pet handler ever changes the Owner dict. *)
Theorem pet_handlers_keep_owners (s : St) (p : PetCreate) (k : UUID) (u : PetUpdate) :
  OWNERS (snd (create_pet p s)) = OWNERS s /\
  OWNERS (snd (list_pets s)) = OWNERS s /\
  OWNERS (snd (get_pet k s)) = OWNERS s /\
  OWNERS (snd (patch_pet k u s)) = OWNERS s /\
  OWNERS (snd (put_pet_placeholder k s)) = OWNERS s /\
  OWNERS (snd (delete_pet k s)) = OWNERS s.
Proof.
  unfold create_pet, list_pets, get_pet, patch_pet, put_pet_placeholder, delete_pet,
    uuid4, utcnow.
  repeat split;
    repeat match goal with
    | |- context [if ?b then _ else _] => destruct b
    | |- context [match ?m with _ => _ end] => destruct m
    end; reflexivity.
Qed.

(** The only Owner handler that changes the Pet dict is [delete_owner]. *)
Theorem owner_handlers_keep_pets (s : St) (p : OwnerCreate) (k : UUID) (u : OwnerUpdate) :
  PETS (snd (create_owner p s)) = PETS s /\
  PETS (snd (list_owners s)) = PETS s /\
  PETS (snd (get_owner k s)) = PETS s /\
  PETS (snd (patch_owner k u s)) = PETS s /\
  PETS (snd (put_owner_placeholder k s)) = PETS s.
Proof.
  unfold create_owner, list_owners, get_owner, patch_owner, put_owner_placeholder,
    uuid4, utcnow.
  repeat split;
    repeat match goal with
    | |- context [match ?m with _ => _ end] => destruct m
    end; reflexivity.
Qed.

(** ** Deletion *)

(** [delete_pet] on a stored id succeeds, removes exactly that key from the
    Pet dict and leaves the Owner dict alone. *)
Theorem delete_pet_removes (s : St) (k : UUID) :
  Dict.contains (PETS s) k = true ->
  fst (delete_pet k s) = Ok tt /\
  Dict.get (PETS (snd (delete_pet k s))) k = None /\
  (forall k', k' <> k -> Dict.get (PETS (snd (delete_pet k s))) k' = Dict.get (PETS s) k') /\
  OWNERS (snd (delete_pet k s)) = OWNERS s.
Proof.
  intros H. unfold delete_pet. rewrite H. simpl.
  split; [reflexivity|]. split; [now rewrite get_del, Z.eqb_refl|].
  split; [|reflexivity].
  intros k' Hne. rewrite get_del. destruct (Z.eqb_spec k' k); congruence.
Qed.

Lemma delete_pet_removes_witness :
  Dict.contains (PETS ex_state) 101 = true /\
  fst (delete_pet 101 ex_state) = Ok tt /\
  Dict.get (PETS (snd (delete_pet 101 ex_state))) 101 = None /\
  (forall k', k' <> 101 ->
     Dict.get (PETS (snd (delete_pet 101 ex_state))) k' = Dict.get (PETS ex_state) k') /\
  OWNERS (snd (delete_pet 101 ex_state)) = OWNERS ex_state.
Proof.
  assert (H : Dict.contains (PETS ex_state) 101 = true) by reflexivity.
  exact (conj H (delete_pet_removes ex_state 101 H)).
Defined.

Lemma deleted_owner_absent (s : St) (k : UUID) :
  Dict.contains (OWNERS (snd (delete_owner k s))) k = false.
Proof.
  unfold delete_owner. destruct (Dict.contains (OWNERS s) k) eqn:H; simpl; [|exact H].
  unfold Dict.contains. now rewrite get_del, Z.eqb_refl.
Qed.

Lemma deleted_pet_absent (s : St) (k : UUID) :
  Dict.contains (PETS (snd (delete_pet k s))) k = false.
Proof.
  unfold delete_pet. destruct (Dict.contains (PETS s) k) eqn:H; simpl; [|exact H].
  unfold Dict.contains. now rewrite get_del, Z.eqb_refl.
Qed.

(** Deleting the same id twice: the second [DELETE] always raises 404,
    for Owners and for Pets. *)
Theorem delete_twice_404 (s : St) (k : UUID) :
  fst (delete_owner k (snd (delete_owner k s))) = HTTPException 404 "Owner not found" /\
  fst (delete_pet k (snd (delete_pet k s))) = HTTPException 404 "Pet not found".
Proof.
  split.
  - pose proof (deleted_owner_absent s k) as H.
    remember (snd (delete_owner k s)) as s'.
    unfold delete_owner. rewrite H. reflexivity.
  - pose proof (deleted_pet_absent s k) as H.
    remember (snd (delete_pet k s)) as s'.
    unfold delete_pet. rewrite H. reflexivity.
Qed.

(** After [DELETE /owners/{id}], [POST /pets] naming that id as owner is
    refused with 400 and stores nothing. *)
Theorem create_pet_after_owner_delete (s : St) (k : UUID) (n sp : string) :
  create_pet (mkPetCreate k n sp) (snd (delete_owner k s)) =
  (HTTPException 400 "owner_id does not exist", snd (delete_owner k s)).
Proof.
  unfold create_pet. simpl. rewrite deleted_owner_absent. reflexivity.
Qed.

(** ** Composition: the Owner/Pet round trip *)

(** [POST /owners], then [POST /pets] naming the returned id, then
    [GET /owners/{id}]: the Pet creation succeeds and the Owner read back
    lists the new Pet in its [pets]. *)
Theorem create_owner_pet_then_get (s : St) (p : OwnerCreate) (n sp : string) :
  exists o pet o',
    fst (create_owner p s) = Ok o /\
    fst (create_pet (mkPetCreate (o_id o) n sp) (snd (create_owner p s))) = Ok pet /\
    fst (get_owner (o_id o)
           (snd (create_pet (mkPetCreate (o_id o) n sp) (snd (create_owner p s)))))
      = Ok o' /\
    In pet (pets o').
Proof.
  do 3 eexists. split; [reflexivity|].
  unfold create_pet, Dict.contains. simpl. rewrite get_set_same. simpl.
  split; [reflexivity|].
  unfold get_owner. simpl. rewrite get_set_same. simpl.
  split; [reflexivity|]. simpl.
  unfold live_pets. apply filter_In. split.
  - unfold Dict.values. apply in_map_iff. eexists. split; [|apply In_set_same].
    reflexivity.
  - simpl. apply Z.eqb_refl.
Qed.

(** ** Reads write back *)

Lemma set_pets_idem o l : set_pets (set_pets o l) l = set_pets o l.
Proof. destruct o; reflexivity. Qed.


(** ** Insertion order *)

(** [POST /owners] with a [uuid4()] value not yet a key appends the new
    Owner at the end of the Owner dict, so it comes last in [GET /owners]. *)
Theorem create_owner_appends (s : St) (p : OwnerCreate) :
  Dict.get (OWNERS s) (uuids s (uuid_ix s)) = None ->
  exists o, fst (create_owner p s) = Ok o /\
    OWNERS (snd (create_owner p s)) = OWNERS s ++ [(o_id o, o)].
Proof.
  intros H. eexists. split; [reflexivity|]. simpl. now rewrite set_absent.
Qed.

Lemma create_owner_appends_witness :
  Dict.get (OWNERS ex_state) (uuids ex_state (uuid_ix ex_state)) = None /\
  exists o, fst (create_owner ada ex_state) = Ok o /\
    OWNERS (snd (create_owner ada ex_state)) = OWNERS ex_state ++ [(o_id o, o)].
Proof.
  assert (H : Dict.get (OWNERS ex_state) (uuids ex_state (uuid_ix ex_state)) = None)
    by reflexivity.
  exact (conj H (create_owner_appends ex_state ada H)).
Defined.

(** [POST /owners] performs no collision check: when [uuid4()] returns an
    id that is already a key, the new Owner silently replaces the stored
    one at the same position and the key sequence is unchanged. *)
Theorem create_owner_overwrites_on_clash (s : St) (p : OwnerCreate) :
  Dict.get (OWNERS s) (uuids s (uuid_ix s)) <> None ->
  exists o, fst (create_owner p s) = Ok o /\
    Dict.get (OWNERS (snd (create_owner p s))) (o_id o) = Some o /\
    map fst (OWNERS (snd (create_owner p s))) = map fst (OWNERS s).
Proof.
  intros H. eexists. split; [reflexivity|]. simpl.
  split; [apply get_set_same|]. now apply keys_set_present.
Qed.

Lemma create_owner_overwrites_on_clash_witness :
  Dict.get (OWNERS ex_clash_state) (uuids ex_clash_state (uuid_ix ex_clash_state)) <> None /\
  exists o, fst (create_owner ada ex_clash_state) = Ok o /\
    Dict.get (OWNERS (snd (create_owner ada ex_clash_state))) (o_id o) = Some o /\
    map fst (OWNERS (snd (create_owner ada ex_clash_state))) = map fst (OWNERS ex_clash_state).
Proof.
  assert (H : Dict.get (OWNERS ex_clash_state)
                (uuids ex_clash_state (uuid_ix ex_clash_state)) <> None) by discriminate.
  exact (conj H (create_owner_overwrites_on_clash ex_clash_state ada H)).
Defined.

(** [POST /pets] with an existing owner and a [uuid4()] value not yet a
    key appends the new Pet at the end of the Pet dict. *)
Theorem create_pet_appends (s : St) (p : PetCreate) :
  Dict.contains (OWNERS s) (pc_owner_id p) = true ->
  Dict.get (PETS s) (uuids s (uuid_ix s)) = None ->
  exists pet, fst (create_pet p s) = Ok pet /\
    PETS (snd (create_pet p s)) = PETS s ++ [(p_id pet, pet)].
Proof.
  intros Ho H. unfold create_pet. rewrite Ho. simpl.
  eexists. split; [reflexivity|]. simpl. now rewrite set_absent.
Qed.

Lemma create_pet_appends_witness :
  Dict.contains (OWNERS ex_state) (pc_owner_id boba) = true /\
  Dict.get (PETS ex_state) (uuids ex_state (uuid_ix ex_state)) = None /\
  exists pet, fst (create_pet boba ex_state) = Ok pet /\
    PETS (snd (create_pet boba ex_state)) = PETS ex_state ++ [(p_id pet, pet)].
Proof.
  assert (H1 : Dict.contains (OWNERS ex_state) (pc_owner_id boba) = true) by reflexivity.
  assert (H2 : Dict.get (PETS ex_state) (uuids ex_state (uuid_ix ex_state)) = None)
    by reflexivity.
  exact (conj H1 (conj H2 (create_pet_appends ex_state boba H1 H2))).
Defined.

(** [GET /owners/{id}], [PATCH /owners/{id}] and [PATCH /pets/{id}] never
    add, remove or reorder keys: an updated record keeps its place in the
    listing order. *)
Theorem reads_and_patches_keep_order (s : St) (k : UUID) (u : OwnerUpdate) (v : PetUpdate) :
  map fst (OWNERS (snd (get_owner k s))) = map fst (OWNERS s) /\
  map fst (OWNERS (snd (patch_owner k u s))) = map fst (OWNERS s) /\
  map fst (PETS (snd (patch_pet k v s))) = map fst (PETS s).
Proof.
  unfold get_owner, patch_owner, patch_pet, utcnow.
  repeat split.
  - destruct (Dict.get (OWNERS s) k) eqn:H; simpl; [|reflexivity].
    apply keys_set_present. congruence.
  - destruct (Dict.get (OWNERS s) k) eqn:H; simpl; [|reflexivity].
    destruct (OwnerRead_validate _); simpl; [|reflexivity].
    apply keys_set_present. congruence.
  - destruct (Dict.get (PETS s) k) eqn:H; simpl; [|reflexivity].
    apply keys_set_present. congruence.
Qed.

(** ** Listing and fetching agree *)

Definition keys_nodup (s : St) : Prop :=
  NoDup (map fst (OWNERS s)) /\ NoDup (map fst (PETS s)).

Lemma serve_keys_nodup r s : keys_nodup s -> keys_nodup (serve r s).
Proof.
  intros [HO HP].
  destruct r as [p| |k|k u|k|k|p| |k|k u|k|k]; simpl;
    unfold create_owner, list_owners, get_owner, patch_owner, put_owner_placeholder,
      delete_owner, create_pet, list_pets, get_pet, patch_pet, put_pet_placeholder,
      delete_pet, uuid4, utcnow;
    repeat match goal with
    | |- context [if ?b then _ else _] => destruct b
    | |- context [match ?m with _ => _ end] => destruct m
    end; simpl; split;
    first [ exact HO | exact HP | apply nodup_set; assumption
          | apply nodup_filter_keys; assumption | apply nodup_fold_del; assumption
          | (unfold with_owners; simpl OWNERS; rewrite map_map; exact HO) ].
Qed.

Lemma reachable_keys_nodup s : reachable s -> keys_nodup s.
Proof.
  induction 1 as [clk uu|r s _ IH].
  - split; constructor.
  - now apply serve_keys_nodup.
Qed.

(** In a reachable state every Pet returned by [GET /pets] is returned by
    [GET /pets/{its id}], and every Owner returned by [GET /owners] is
    returned unchanged by a following [GET /owners/{its id}]. *)
Theorem listed_records_retrievable (s : St) :
  reachable s ->
  (exists l, fst (list_pets s) = Ok l /\
     forall p, In p l -> fst (get_pet (p_id p) (snd (list_pets s))) = Ok p) /\
  (exists l, fst (list_owners s) = Ok l /\
     forall o, In o l -> fst (get_owner (o_id o) (snd (list_owners s))) = Ok o).
Proof.
  intros Hr. destruct (reachable_inv s Hr) as [HO HP].
  destruct (reachable_keys_nodup s Hr) as [NO NP].
  split.
  - eexists. split; [reflexivity|]. intros p Hp. simpl in Hp.
    unfold Dict.values in Hp. apply in_map_iff in Hp as [[k p0] [Heq Hin]].
    simpl in Heq. subst p0.
    destruct (HP _ _ Hin) as (Hid & _). rewrite Hid.
    unfold get_pet. simpl. rewrite (In_get_nodup _ _ _ NP Hin). reflexivity.
  - eexists. split; [reflexivity|]. intros o Ho. simpl in Ho.
    unfold Dict.values in Ho. rewrite map_map in Ho.
    apply in_map_iff in Ho as [[k o0] [Heq Hin]]. simpl in Heq. subst o.
    destruct (HO _ _ Hin) as (Hid & _).
    set (os := map (fun kv => (fst kv, set_pets (snd kv)
                 (live_pets (PETS s) (o_id (snd kv))))) (OWNERS s)).
    assert (Hos : In (k, set_pets o0 (live_pets (PETS s) (o_id o0))) os).
    { apply in_map_iff. exists (k, o0). auto. }
    assert (Nos : NoDup (map fst os)).
    { unfold os. rewrite map_map. exact NO. }
    unfold get_owner. simpl. fold os. rewrite Hid.
    rewrite (In_get_nodup _ _ _ Nos Hos). simpl.
    rewrite Hid. rewrite set_pets_idem. reflexivity.
Qed.

Lemma listed_records_retrievable_witness :
  reachable ex_state /\
  (exists l, fst (list_pets ex_state) = Ok l /\
     forall p, In p l -> fst (get_pet (p_id p) (snd (list_pets ex_state))) = Ok p) /\
  (exists l, fst (list_owners ex_state) = Ok l /\
     forall o, In o l -> fst (get_owner (o_id o) (snd (list_owners ex_state))) = Ok o).
Proof.
  assert (H : reachable ex_state) by exact ex_state_reachable.
  exact (conj H (listed_records_retrievable ex_state H)).
Defined.

(** ** No Pet refers to a deleted Owner *)

(** After a successful [DELETE /owners/{id}] no entry of the Pet dict has
    that [owner_id] any more, and the remaining entries are entries that
    were there before. *)
Theorem delete_owner_no_orphans (s : St) (k : UUID) :
  Dict.contains (OWNERS s) k = true ->
  forall pid p, In (pid, p) (PETS (snd (delete_owner k s))) ->
    owner_id p <> k /\ In (pid, p) (PETS s).
Proof.
  intros Hin pid p H. unfold delete_owner in *. rewrite Hin in *. simpl in H.
  split; [|exact (In_fold_del _ _ _ H)].
  intros Hown.
  assert (Hg : Dict.get (fold_left Dict.del
     (map fst (filter (fun kv => Z.eqb (owner_id (snd kv)) k) (PETS s))) (PETS s)) pid = None).
  { rewrite get_fold_del.
    replace (existsb _ _) with true; [reflexivity|].
    symmetry. apply existsb_exists. exists pid. split; [|apply Z.eqb_refl].
    apply (in_map fst (filter _ _) (pid, p)). apply filter_In.
    split; [exact (In_fold_del _ _ _ H)|]. simpl. now apply Z.eqb_eq. }
  apply (get_None_notin _ _ Hg). exact (in_map fst _ _ H).
Qed.

Lemma delete_owner_no_orphans_witness :
  Dict.contains (OWNERS ex_state) 100 = true /\
  forall pid p, In (pid, p) (PETS (snd (delete_owner 100 ex_state))) ->
    owner_id p <> 100 /\ In (pid, p) (PETS ex_state).
Proof.
  assert (H : Dict.contains (OWNERS ex_state) 100 = true) by reflexivity.
  exact (conj H (delete_owner_no_orphans ex_state 100 H)).
Defined.
